(** * babel-plugin-syntax-exists: the "ex" existential-access rewrite

    A shallow embedding of [src/index.js].  The plugin is a function of the
    host's node builders [t] that returns a visitor with one entry,
    [MemberExpression(path)].  Everything between is a family of small
    helpers over a [path]: guard builders, context predicates, the three
    operand factories and [existentialExpression], which assembles the
    conditional expression handed to [path.replaceWith].

    Conventions of the embedding:
    - tree nodes are an inductive type, one constructor per node type tag,
      with the fields the builders fill in;
    - a property read off [undefined] is a JavaScript [TypeError]: helpers
      that may perform one return a [completion];
    - [path.replaceWith] is the only effect; it is modelled by explicit
      state passing over the tree position the path stands for. *)

From Stdlib Require Import String List Bool ZArith Lia.
Import ListNotations.
Local Open Scope string_scope.
Set Warnings "-register-all".

(** ** Tree nodes *)

Inductive Node : Type :=
| Identifier (name : string)
| StringLiteral (value : string)
| NumericLiteral (value : Z)
| BooleanLiteral (value : bool)
| NullLiteral
| UnaryExpression (operator : string) (argument : Node) (prefix : bool)
| BinaryExpression (operator : string) (left right : Node)
| LogicalExpression (operator : string) (left right : Node)
| ConditionalExpression (test consequent alternate : Node)
| MemberExpression (object property : Node) (computed : bool)
| CallExpression (callee : Node) (arguments : list Node)
| AssignmentExpression (operator : string) (left right : Node)
| ExpressionStatement (expression : Node).

(** [node.type]: the type discriminator, a string in the source. *)
Definition type (n : Node) : string :=
  match n with
  | Identifier _ => "Identifier"
  | StringLiteral _ => "StringLiteral"
  | NumericLiteral _ => "NumericLiteral"
  | BooleanLiteral _ => "BooleanLiteral"
  | NullLiteral => "NullLiteral"
  | UnaryExpression _ _ _ => "UnaryExpression"
  | BinaryExpression _ _ _ => "BinaryExpression"
  | LogicalExpression _ _ _ => "LogicalExpression"
  | ConditionalExpression _ _ _ => "ConditionalExpression"
  | MemberExpression _ _ _ => "MemberExpression"
  | CallExpression _ _ => "CallExpression"
  | AssignmentExpression _ _ _ => "AssignmentExpression"
  | ExpressionStatement _ => "ExpressionStatement"
  end.

(** [node.name]: only identifiers carry one; on every other node the read
    yields [undefined], here [None]. *)
Definition name (n : Node) : option string :=
  match n with
  | Identifier s => Some s
  | _ => None
  end.

(** The node a [MemberExpression] visitor is handed: the host only calls the
    entry on nodes of that type, so [object] and [property] are present. *)
Record MemberNode : Type := mkMember {
  object : Node;
  property : Node;
  computed : bool
}.

Definition to_node (m : MemberNode) : Node :=
  MemberExpression (object m) (property m) (computed m).

(** ** JavaScript results *)

(** The values [parentExists] can produce. *)
Inductive jsval : Type :=
| JUndefined
| JBoolean (b : bool).

(** [Boolean(v)]. *)
Definition Boolean (v : jsval) : bool :=
  match v with
  | JUndefined => false
  | JBoolean b => b
  end.

Inductive jsError : Type :=
| TypeError.

Inductive completion (A : Type) : Type :=
| Normal (a : A)
| Throw (e : jsError).
Arguments Normal {A} a.
Arguments Throw {A} e.

Definition bind {A B : Type} (c : completion A) (k : A -> completion B)
  : completion B :=
  match c with
  | Normal a => k a
  | Throw e => Throw e
  end.

Notation "x <- c ;; k" := (bind c (fun x => k))
  (at level 61, c at next level, right associativity).

(** ** Paths *)

(** What [path.parent] refers to, as the source reads it: an object with a
    [type] and, possibly, a [parent] of its own. *)
Inductive Ancestor : Type :=
| mkAncestor (this : Node) (up : option Ancestor).

Definition this (a : Ancestor) : Node :=
  match a with mkAncestor n _ => n end.

Record Path : Type := mkPath {
  node : MemberNode;
  parent : option Ancestor
}.

(** Objects with a [parent] reference: paths and what they point up to. *)
Class HasParent (A : Type) : Type := parentOf : A -> option Ancestor.

#[export] Instance Path_HasParent : HasParent Path := parent.
#[export] Instance Ancestor_HasParent : HasParent Ancestor :=
  fun a => match a with mkAncestor _ u => u end.

(** [path.parent.type]: a [TypeError] when there is no parent. *)
Definition parent_type (p : Path) : completion string :=
  match parent p with
  | Some a => Normal (type (this a))
  | None => Throw TypeError
  end.

(** ** The node builders [t] *)

Module t.

Definition binaryExpression (operator : string) (l r : Node) : Node :=
  BinaryExpression operator l r.

Definition unaryExpression (operator : string) (argument : Node)
           (prefix : bool) : Node :=
  UnaryExpression operator argument prefix.

Definition logicalExpression (operator : string) (l r : Node) : Node :=
  LogicalExpression operator l r.

Definition conditionalExpression (test consequent alternate : Node) : Node :=
  ConditionalExpression test consequent alternate.

Definition stringLiteral (value : string) : Node := StringLiteral value.
Definition numericLiteral (value : Z) : Node := NumericLiteral value.
Definition booleanLiteral (value : bool) : Node := BooleanLiteral value.
Definition nullLiteral : Node := NullLiteral.

(** Modelled from the spec: the identifier builder belongs to the host and
    is not part of the sources.  Handed a name it builds the identifier;
    handed [undefined] (a property with no name) it is the "runtime
    failure sourced from missing required data" of the error-handling
    section. *)
Definition Identifier (name : option string) : completion Node :=
  match name with
  | Some s => Normal (Identifier s)
  | None => Throw TypeError
  end.

End t.

(** ** Guard builders *)

(** [comparate_left !== comparate_right]. *)
Definition isNotExp (comparate_left comparate_right : Node) : Node :=
  t.binaryExpression "!==" comparate_left comparate_right.

(** [typeof object !== type_string], over the [object] of the path's node. *)
Definition isNotTypeofExp (path : Path) (type_string : string) : Node :=
  let object := object (node path) in
  isNotExp (t.unaryExpression "typeof" object false)
           (t.stringLiteral type_string).

Definition isNotTypeUndefinedExp (path : Path) : Node :=
  isNotTypeofExp path "undefined".

(** The null guard.  The source destructures [node.property.name] and
    compares an identifier of that name against [null]. *)
Definition isNotNullExp (path : Path) : completion Node :=
  let name := name (property (node path)) in
  id <- t.Identifier name ;;
  Normal (isNotExp id t.nullLiteral).

Definition isNotTypeFunction (path : Path) : Node :=
  isNotTypeofExp path "function".

Definition isNotTypeUndefinedAndNotNullExp (path : Path) : completion Node :=
  let l := isNotTypeUndefinedExp path in
  r <- isNotNullExp path ;;
  Normal (t.logicalExpression "&&" l r).

Definition isNotTypeUndefinedAndNotNullAndNotTypeFunctionExp (path : Path)
  : completion Node :=
  l <- isNotTypeUndefinedAndNotNullExp path ;;
  let r := isNotTypeFunction path in
  Normal (t.logicalExpression "&&" l r).

(** ** Context predicates *)

(** [if (path.parent) return Boolean(path.parent)], and nothing otherwise:
    a call that falls off the end of the body yields [undefined]. *)
Definition parentExists {A : Type} `{HasParent A} (path : A) : jsval :=
  match parentOf path with
  | Some _ => JBoolean true
  | None => JUndefined
  end.

(** [Boolean(path.parent.type !== "ExpressionStatement")]. *)
Definition childExists (path : Path) : completion bool :=
  ty <- parent_type path ;;
  Normal (negb (ty =? "ExpressionStatement")).

(** [Boolean(path.parent.type === "CallExpression")]. *)
Definition isCallee (path : Path) : completion bool :=
  ty <- parent_type path ;;
  Normal (ty =? "CallExpression").

(** [Boolean(parentExists(path) && parentExists(path.parent) &&
    path.parent.parent.type === "MemberExpression")]; [&&] yields its left
    operand when that one is falsy and does not evaluate the right one. *)
Definition scopeIsAccessed (path : Path) : bool :=
  Boolean
    (if Boolean (parentExists path) then
       match parent path with
       | Some a =>
           if Boolean (parentExists a) then
             match parentOf a with
             | Some g => JBoolean (type (this g) =? "MemberExpression")
             | None => JUndefined
             end
           else parentExists a
       | None => JUndefined
       end
     else parentExists path).

(** ** Operand factories *)

Definition testMemberExp (path : Path) : completion Node :=
  isNotTypeUndefinedAndNotNullExp path.

Definition consequentMemberExp (path : Path) : completion Node :=
  c <- childExists path ;;
  Normal (if c then object (node path) else t.booleanLiteral true).

Definition alternativeMemberExp (path : Path) : completion Node :=
  c <- childExists path ;;
  Normal (if c
          then t.unaryExpression "void" (t.numericLiteral 0) false
          else t.booleanLiteral false).

Definition testCallExp (path : Path) : completion Node :=
  isNotTypeUndefinedAndNotNullAndNotTypeFunctionExp path.

Definition alternativeCallExp (path : Path) : completion Node :=
  c <- childExists path ;;
  Normal (if c
          then t.unaryExpression "void" (t.numericLiteral 0) false
          else t.booleanLiteral false).

(** The dispatching factories.  Nothing calls them: the three lines of
    [existentialExpression] that did are commented out in the source.
    ([consequentCallExp] and its dispatcher hand the path handle itself,
    not a node, to the call builder; they have no counterpart here.) *)
Definition testExpression (path : Path) : completion Node :=
  c <- isCallee path ;;
  if c then testCallExp path else testMemberExp path.

Definition alternativeExpression (path : Path) : completion Node :=
  c <- isCallee path ;;
  if c then alternativeCallExp path else alternativeMemberExp path.

(** ** The rewrite *)

(** Arguments are evaluated left to right before the builder runs. *)
Definition existentialExpression (path : Path) : completion Node :=
  test <- testMemberExp path ;;
  consequent <- consequentMemberExp path ;;
  alternate <- alternativeMemberExp path ;;
  Normal (t.conditionalExpression test consequent alternate).

(** ** The tree position and [replaceWith] *)

(** The place in the host's tree a path stands for: the node held there and
    the substitutions requested at it so far, oldest first. *)
Record Site : Type := mkSite {
  held : Node;
  requested : list Node
}.

(** [path.replaceWith(replacement)]: the node at the position is swapped for
    the new one. *)
Definition replaceWith (replacement : Node) (s : Site) : Site :=
  {| held := replacement; requested := requested s ++ [replacement] |}.

(** [name === "ex"], where [name] may be [undefined]. *)
Definition is_ex (name : option string) : bool :=
  match name with
  | Some s => s =? "ex"
  | None => false
  end.

Module visitor.

Definition MemberExpression (path : Path) (s : Site) : completion Site :=
  let name := name (property (node path)) in
  if is_ex name then
    replacement <- existentialExpression path ;;
    Normal (replaceWith replacement s)
  else Normal s.

End visitor.

(** ** Sample trees *)

Definition a_ex : MemberNode :=
  {| object := Identifier "a"; property := Identifier "ex"; computed := false |}.

(** [a.ex;] *)
Definition path_statement : Path :=
  {| node := a_ex;
     parent := Some (mkAncestor (ExpressionStatement (to_node a_ex)) None) |}.

(** [b = a.ex] *)
Definition path_assigned : Path :=
  {| node := a_ex;
     parent := Some (mkAncestor
                (AssignmentExpression "=" (Identifier "b") (to_node a_ex))
                None) |}.

(** [f(a.ex)] *)
Definition path_argument : Path :=
  {| node := a_ex;
     parent := Some (mkAncestor
                (CallExpression (Identifier "f") [to_node a_ex]) None) |}.

(** [a.ex()] *)
Definition path_called : Path :=
  {| node := a_ex;
     parent := Some (mkAncestor (CallExpression (to_node a_ex) []) None) |}.

(** [a.ex] handed over with no parent reference. *)
Definition path_orphan : Path := {| node := a_ex; parent := None |}.

(** [a.ex();]: as [path_called], with the statement above the call in
    reach through the parent. *)
Definition path_called_statement : Path :=
  {| node := a_ex;
     parent :=
       Some (mkAncestor (CallExpression (to_node a_ex) [])
               (Some (mkAncestor
                        (ExpressionStatement
                           (CallExpression (to_node a_ex) []))
                        None))) |}.

(** [a.b]: a member access that is not a sentinel. *)
Definition a_b : MemberNode :=
  {| object := Identifier "a"; property := Identifier "b"; computed := false |}.

Definition path_plain : Path :=
  {| node := a_b;
     parent := Some (mkAncestor (ExpressionStatement (to_node a_b)) None) |}.

(** The tree position of [a.ex] before any visit. *)
Definition site_a_ex : Site := {| held := to_node a_ex; requested := [] |}.

(** ** Traversal vocabulary *)

(** Every node of a tree, the root first. *)
Fixpoint subnodes (n : Node) : list Node :=
  n ::
  match n with
  | Identifier _ | StringLiteral _ | NumericLiteral _
  | BooleanLiteral _ | NullLiteral => []
  | UnaryExpression _ x _ => subnodes x
  | BinaryExpression _ l r => subnodes l ++ subnodes r
  | LogicalExpression _ l r => subnodes l ++ subnodes r
  | ConditionalExpression c x y => subnodes c ++ subnodes x ++ subnodes y
  | MemberExpression o q _ => subnodes o ++ subnodes q
  | CallExpression f xs => subnodes f ++ flat_map subnodes xs
  | AssignmentExpression _ l r => subnodes l ++ subnodes r
  | ExpressionStatement x => subnodes x
  end.

(** The nodes the visitor entry rewrites: member accesses whose property
    reads as the name "ex". *)
Definition matches (n : Node) : bool :=
  match n with
  | MemberExpression _ q _ => is_ex (name q)
  | _ => false
  end.

(** No node of the tree is one the visitor would rewrite. *)
Definition ex_free (n : Node) : bool :=
  forallb (fun x => negb (matches x)) (subnodes n).

(** ** Readings of the specification compared against the code *)

(** A substitution was requested at the position during the visit. *)
Definition substitution_requested (path : Path) (s : Site) : Prop :=
  exists replacement,
    visitor.MemberExpression path s = Normal (replaceWith replacement s).

(** The path's node is the callee of the call expression right above it. *)
Definition at_callee_position (path : Path) : Prop :=
  exists a args,
    parent path = Some a /\
    this a = CallExpression (to_node (node path)) args.

(** The path's node is one of the arguments of the call right above it. *)
Definition at_argument_position (path : Path) : Prop :=
  exists a f args,
    parent path = Some a /\
    this a = CallExpression f args /\
    In (to_node (node path)) args.

(** The null guard of the specification: [objectExpr !== null]. *)
Definition isNotNull_spec (path : Path) : Node :=
  BinaryExpression "!==" (object (node path)) NullLiteral.

(** The node right above the path, when there is one. *)
Definition parent_node (path : Path) : option Node :=
  option_map this (parent path).

(** ** Measures on trees *)

(** The number of nodes of a tree. *)
Fixpoint size (n : Node) : nat :=
  S match n with
    | Identifier _ | StringLiteral _ | NumericLiteral _
    | BooleanLiteral _ | NullLiteral => 0
    | UnaryExpression _ x _ => size x
    | BinaryExpression _ l r => size l + size r
    | LogicalExpression _ l r => size l + size r
    | ConditionalExpression c x y => size c + size x + size y
    | MemberExpression o q _ => size o + size q
    | CallExpression f xs => size f + list_sum (map size xs)
    | AssignmentExpression _ l r => size l + size r
    | ExpressionStatement x => size x
    end.

(** How many nodes of a tree the visitor entry would rewrite. *)
Definition ex_count (n : Node) : nat :=
  length (filter matches (subnodes n)).

(** ** Further sample trees *)

(** [a.ex.b.c]: the path of [a.ex], below [a.ex.b], below [a.ex.b.c]. *)
Definition path_deep : Path :=
  {| node := a_ex;
     parent :=
       Some (mkAncestor
               (MemberExpression (to_node a_ex) (Identifier "b") false)
               (Some (mkAncestor
                        (MemberExpression
                           (MemberExpression (to_node a_ex)
                                             (Identifier "b") false)
                           (Identifier "c") false)
                        None))) |}.

(** [a.ex.ex] in [b = a.ex.ex]: a sentinel whose base object is one too. *)
Definition a_ex_ex : MemberNode :=
  {| object := to_node a_ex; property := Identifier "ex"; computed := false |}.

Definition path_nested : Path :=
  {| node := a_ex_ex;
     parent := Some (mkAncestor
                (AssignmentExpression "=" (Identifier "b") (to_node a_ex_ex))
                None) |}.

(** [a["ex"]] in [b = a["ex"]]: the property is a string literal. *)
Definition a_str_ex : MemberNode :=
  {| object := Identifier "a"; property := StringLiteral "ex";
     computed := true |}.

Definition path_string_key : Path :=
  {| node := a_str_ex;
     parent := Some (mkAncestor
                (AssignmentExpression "=" (Identifier "b") (to_node a_str_ex))
                None) |}.

(** * Properties *)

(** ** Basic facts *)

Lemma is_ex_true (n : option string) : is_ex n = true <-> n = Some "ex".
Proof.
  destruct n as [s|]; simpl.
  - rewrite String.eqb_eq. split; congruence.
  - split; discriminate.
Qed.

Lemma is_ex_false (n : option string) : is_ex n = false <-> n <> Some "ex".
Proof.
  rewrite <- is_ex_true. destruct (is_ex n); split; congruence.
Qed.

Lemma bind_Normal {A B : Type} (c : completion A) (k : A -> completion B) b :
  (x <- c ;; k x) = Normal b <-> exists a, c = Normal a /\ k a = Normal b.
Proof.
  destruct c as [a|e]; simpl; split.
  - intros H. exists a. auto.
  - intros (a' & Ha & Hk). congruence.
  - discriminate.
  - intros (a' & Ha & _). discriminate.
Qed.

Lemma replaceWith_changes (r : Node) (s : Site) : replaceWith r s <> s.
Proof.
  intros H. apply (f_equal (fun x => length (requested x))) in H.
  simpl in H. rewrite length_app in H. simpl in H.
  rewrite PeanoNat.Nat.add_comm in H. simpl in H.
  exact (PeanoNat.Nat.neq_succ_diag_l _ H).
Qed.

Lemma replaceWith_inj (r r' : Node) (s : Site) :
  replaceWith r s = replaceWith r' s -> r = r'.
Proof. intros H. apply (f_equal held) in H. exact H. Qed.

(** ** Closed forms of the helpers *)

Lemma parent_type_present (path : Path) (a : Ancestor) :
  parent path = Some a -> parent_type path = Normal (type (this a)).
Proof. unfold parent_type. now intros ->. Qed.

Lemma parent_type_absent (path : Path) :
  parent path = None -> parent_type path = Throw TypeError.
Proof. unfold parent_type. now intros ->. Qed.

Lemma childExists_present (path : Path) (a : Ancestor) :
  parent path = Some a ->
  childExists path = Normal (negb (type (this a) =? "ExpressionStatement")).
Proof.
  intros H. unfold childExists. now rewrite (parent_type_present _ _ H).
Qed.

Lemma childExists_absent (path : Path) :
  parent path = None -> childExists path = Throw TypeError.
Proof.
  intros H. unfold childExists. now rewrite (parent_type_absent _ H).
Qed.

Lemma isNotNullExp_named (path : Path) (nm : string) :
  name (property (node path)) = Some nm ->
  isNotNullExp path =
    Normal (BinaryExpression "!==" (Identifier nm) NullLiteral).
Proof. unfold isNotNullExp. now intros ->. Qed.

Lemma testMemberExp_named (path : Path) (nm : string) :
  name (property (node path)) = Some nm ->
  testMemberExp path =
    Normal (LogicalExpression "&&"
              (BinaryExpression "!=="
                 (UnaryExpression "typeof" (object (node path)) false)
                 (StringLiteral "undefined"))
              (BinaryExpression "!==" (Identifier nm) NullLiteral)).
Proof.
  intros H. unfold testMemberExp, isNotTypeUndefinedAndNotNullExp.
  now rewrite (isNotNullExp_named _ _ H).
Qed.

Lemma testCallExp_named (path : Path) (nm : string) :
  name (property (node path)) = Some nm ->
  testCallExp path =
    Normal (LogicalExpression "&&"
              (LogicalExpression "&&"
                 (BinaryExpression "!=="
                    (UnaryExpression "typeof" (object (node path)) false)
                    (StringLiteral "undefined"))
                 (BinaryExpression "!==" (Identifier nm) NullLiteral))
              (BinaryExpression "!=="
                 (UnaryExpression "typeof" (object (node path)) false)
                 (StringLiteral "function"))).
Proof.
  intros H.
  unfold testCallExp, isNotTypeUndefinedAndNotNullAndNotTypeFunctionExp.
  fold (testMemberExp path). now rewrite (testMemberExp_named _ _ H).
Qed.

(** What the rewrite builds on a path with a parent and a named property. *)
Lemma existentialExpression_built (path : Path) (a : Ancestor) (nm : string) :
  name (property (node path)) = Some nm ->
  parent path = Some a ->
  existentialExpression path =
    Normal (ConditionalExpression
              (LogicalExpression "&&"
                 (BinaryExpression "!=="
                    (UnaryExpression "typeof" (object (node path)) false)
                    (StringLiteral "undefined"))
                 (BinaryExpression "!==" (Identifier nm) NullLiteral))
              (if type (this a) =? "ExpressionStatement"
               then BooleanLiteral true else object (node path))
              (if type (this a) =? "ExpressionStatement"
               then BooleanLiteral false
               else UnaryExpression "void" (NumericLiteral 0) false)).
Proof.
  intros Hn Hp. unfold existentialExpression.
  rewrite (testMemberExp_named _ _ Hn). simpl.
  unfold consequentMemberExp, alternativeMemberExp.
  rewrite (childExists_present _ _ Hp). simpl.
  now destruct (type (this a) =? "ExpressionStatement").
Qed.

Lemma existentialExpression_orphan (path : Path) (nm : string) :
  name (property (node path)) = Some nm ->
  parent path = None ->
  existentialExpression path = Throw TypeError.
Proof.
  intros Hn Hp. unfold existentialExpression.
  rewrite (testMemberExp_named _ _ Hn). simpl.
  unfold consequentMemberExp. now rewrite (childExists_absent _ Hp).
Qed.

(** ** The rewrite engine *)

(** C1.  On every matched path with a parent, whatever [isCallee] answers,
    [existentialExpression] returns the conditional expression made of the
    outputs of [testMemberExp], [consequentMemberExp] and
    [alternativeMemberExp]; its test is never the call-position guard built
    by [testCallExp].  For [a.ex()], where [isCallee] holds and the
    dispatcher [testExpression] would pick the call guard, the result is
    the member-access shape [typeof a !== "undefined" && ex !== null ? a :
    void 0]. *)
Theorem existentialExpression_member_branch :
  (forall path a,
      is_ex (name (property (node path))) = true ->
      parent path = Some a ->
      exists test consequent alternate,
        testMemberExp path = Normal test /\
        consequentMemberExp path = Normal consequent /\
        alternativeMemberExp path = Normal alternate /\
        existentialExpression path =
          Normal (ConditionalExpression test consequent alternate) /\
        testCallExp path <> Normal test) /\
  isCallee path_called = Normal true /\
  testExpression path_called = testCallExp path_called /\
  existentialExpression path_called =
    Normal (ConditionalExpression
              (LogicalExpression "&&"
                 (BinaryExpression "!=="
                    (UnaryExpression "typeof" (Identifier "a") false)
                    (StringLiteral "undefined"))
                 (BinaryExpression "!==" (Identifier "ex") NullLiteral))
              (Identifier "a")
              (UnaryExpression "void" (NumericLiteral 0) false)).
Proof.
  split; [| repeat split].
  intros path a Hex Hp. apply is_ex_true in Hex.
  pose proof (testMemberExp_named _ _ Hex) as Ht.
  pose proof (childExists_present _ _ Hp) as Hc.
  pose proof (existentialExpression_built _ _ _ Hex Hp) as He.
  eexists. exists (if type (this a) =? "ExpressionStatement"
                   then BooleanLiteral true else object (node path)).
  exists (if type (this a) =? "ExpressionStatement"
          then BooleanLiteral false
          else UnaryExpression "void" (NumericLiteral 0) false).
  split; [exact Ht|].
  unfold consequentMemberExp, alternativeMemberExp. rewrite Hc. simpl.
  repeat split.
  - now destruct (type (this a) =? "ExpressionStatement").
  - now destruct (type (this a) =? "ExpressionStatement").
  - exact He.
  - rewrite (testCallExp_named _ _ Hex). intros H. discriminate H.
Qed.

Lemma existentialExpression_member_branch_witness :
  is_ex (name (property (node path_called))) = true /\
  parent path_called =
    Some (mkAncestor (CallExpression (to_node a_ex) []) None) /\
  exists test consequent alternate,
    testMemberExp path_called = Normal test /\
    consequentMemberExp path_called = Normal consequent /\
    alternativeMemberExp path_called = Normal alternate /\
    existentialExpression path_called =
      Normal (ConditionalExpression test consequent alternate) /\
    testCallExp path_called <> Normal test.
Proof.
  split; [reflexivity|]. split; [reflexivity|].
  exact (proj1 existentialExpression_member_branch path_called _
               eq_refl eq_refl).
Defined.

(** ** Guard builders *)

(** C2.  On [a.ex] the null guard built by [isNotNullExp] is [ex !== null],
    an identifier made from the property's name compared against [null];
    it is not [a !== null], the comparison of the base object. *)
Theorem isNotNullExp_compares_property_name :
  isNotNullExp path_assigned =
    Normal (BinaryExpression "!==" (Identifier "ex") NullLiteral) /\
  isNotNull_spec path_assigned =
    BinaryExpression "!==" (Identifier "a") NullLiteral /\
  isNotNullExp path_assigned <> Normal (isNotNull_spec path_assigned).
Proof.
  repeat split. intros H. discriminate H.
Qed.

(** C8.  On every matched path, [testMemberExp] returns the logical
    expression [&&] whose left operand is [typeof object !== "undefined"]
    over the base object of the path's node and whose right operand is the
    null guard, the strict inequality against [null] that [isNotNullExp]
    returns on that path: [ex !== null]. *)
Theorem testMemberExp_shape (path : Path) :
  is_ex (name (property (node path))) = true ->
  isNotNullExp path =
    Normal (BinaryExpression "!==" (Identifier "ex") NullLiteral) /\
  testMemberExp path =
    Normal (LogicalExpression "&&"
              (BinaryExpression "!=="
                 (UnaryExpression "typeof" (object (node path)) false)
                 (StringLiteral "undefined"))
              (BinaryExpression "!==" (Identifier "ex") NullLiteral)).
Proof.
  intros Hex. apply is_ex_true in Hex. split.
  - exact (isNotNullExp_named _ _ Hex).
  - exact (testMemberExp_named _ _ Hex).
Qed.

Lemma testMemberExp_shape_witness :
  is_ex (name (property (node path_argument))) = true /\
  isNotNullExp path_argument =
    Normal (BinaryExpression "!==" (Identifier "ex") NullLiteral) /\
  testMemberExp path_argument =
    Normal (LogicalExpression "&&"
              (BinaryExpression "!=="
                 (UnaryExpression "typeof" (Identifier "a") false)
                 (StringLiteral "undefined"))
              (BinaryExpression "!==" (Identifier "ex") NullLiteral)).
Proof.
  split; [reflexivity|]. exact (testMemberExp_shape path_argument eq_refl).
Defined.

(** ** Operand factories *)

(** C4.  On a path whose parent is not an [ExpressionStatement] the member
    factories return the base object and [void 0]; on a path whose parent
    is an [ExpressionStatement] they return the literals [true] and
    [false]. *)
Theorem member_branch_operands :
  (forall path a,
      parent path = Some a ->
      type (this a) <> "ExpressionStatement" ->
      consequentMemberExp path = Normal (object (node path)) /\
      alternativeMemberExp path =
        Normal (UnaryExpression "void" (NumericLiteral 0) false)) /\
  (forall path a,
      parent path = Some a ->
      type (this a) = "ExpressionStatement" ->
      consequentMemberExp path = Normal (BooleanLiteral true) /\
      alternativeMemberExp path = Normal (BooleanLiteral false)).
Proof.
  split; intros path a Hp Hty;
    unfold consequentMemberExp, alternativeMemberExp;
    rewrite (childExists_present _ _ Hp).
  - apply String.eqb_neq in Hty. rewrite Hty. split; reflexivity.
  - apply String.eqb_eq in Hty. rewrite Hty. split; reflexivity.
Qed.

Lemma member_branch_operands_witness :
  (type (AssignmentExpression "=" (Identifier "b") (to_node a_ex))
     <> "ExpressionStatement" /\
   consequentMemberExp path_assigned = Normal (Identifier "a") /\
   alternativeMemberExp path_assigned =
     Normal (UnaryExpression "void" (NumericLiteral 0) false)) /\
  (type (ExpressionStatement (to_node a_ex)) = "ExpressionStatement" /\
   consequentMemberExp path_statement = Normal (BooleanLiteral true) /\
   alternativeMemberExp path_statement = Normal (BooleanLiteral false)).
Proof.
  split.
  - split; [discriminate|].
    apply (proj1 member_branch_operands path_assigned _ eq_refl).
    discriminate.
  - split; [reflexivity|].
    apply (proj2 member_branch_operands path_statement _ eq_refl).
    reflexivity.
Defined.

(** ** The visitor entry *)

Lemma visitor_matched (path : Path) (s : Site) :
  name (property (node path)) = Some "ex" ->
  visitor.MemberExpression path s =
    (replacement <- existentialExpression path ;;
     Normal (replaceWith replacement s)).
Proof.
  intros H. unfold visitor.MemberExpression.
  now rewrite (proj2 (is_ex_true _) H).
Qed.

Lemma visitor_unmatched (path : Path) (s : Site) :
  name (property (node path)) <> Some "ex" ->
  visitor.MemberExpression path s = Normal s.
Proof.
  intros H. unfold visitor.MemberExpression.
  now rewrite (proj2 (is_ex_false _) H).
Qed.

(** The requested replacement is the output of [existentialExpression]. *)
Lemma visitor_requests (path : Path) (s : Site) (r : Node) :
  visitor.MemberExpression path s = Normal (replaceWith r s) <->
  name (property (node path)) = Some "ex" /\
  existentialExpression path = Normal r.
Proof.
  split.
  - intros H. destruct (is_ex (name (property (node path)))) eqn:E.
    + apply is_ex_true in E. split; [exact E|].
      rewrite (visitor_matched _ _ E) in H.
      apply bind_Normal in H. destruct H as (r0 & Hr0 & Heq).
      assert (Hw : replaceWith r0 s = replaceWith r s) by congruence.
      apply replaceWith_inj in Hw. congruence.
    + apply is_ex_false in E. rewrite (visitor_unmatched _ _ E) in H.
      injection H as H. symmetry in H. now apply replaceWith_changes in H.
  - intros [E Hr]. rewrite (visitor_matched _ _ E), Hr. reflexivity.
Qed.

(** C3, as stated, fails on [a.ex] handed over without a parent: the
    property name is "ex", yet the visit ends in a [TypeError] and no
    substitution is requested. *)
Lemma visitor_substitutes_iff_ex_counterexample :
  ~ (substitution_requested path_orphan site_a_ex <->
     name (property (node path_orphan)) = Some "ex").
Proof.
  intros [_ H]. destruct (H eq_refl) as [r Hr]. discriminate Hr.
Qed.

(** C3, amended.  A visit requests a substitution if and only if the
    property name of the node is "ex" and the path has a parent; when the
    name is not "ex" the visit returns normally and leaves the tree
    position as it was. *)
Theorem visitor_substitutes_iff_ex_and_parent (path : Path) (s : Site) :
  (substitution_requested path s <->
   name (property (node path)) = Some "ex" /\ parent path <> None) /\
  (name (property (node path)) <> Some "ex" ->
   visitor.MemberExpression path s = Normal s).
Proof.
  split; [| apply visitor_unmatched].
  unfold substitution_requested. split.
  - intros [r Hr]. apply visitor_requests in Hr. destruct Hr as [E Hr].
    split; [exact E|]. intros Hp.
    rewrite (existentialExpression_orphan _ _ E Hp) in Hr. discriminate Hr.
  - intros [E Hp]. destruct (parent path) as [a|] eqn:Ha; [| congruence].
    eexists. apply visitor_requests. split; [exact E|].
    exact (existentialExpression_built _ _ _ E Ha).
Qed.

Lemma visitor_substitutes_iff_ex_and_parent_witness :
  substitution_requested path_assigned site_a_ex /\
  name (property (node path_plain)) <> Some "ex" /\
  visitor.MemberExpression path_plain (mkSite (to_node a_b) []) =
    Normal (mkSite (to_node a_b) []).
Proof.
  split; [| split].
  - apply (proj1 (visitor_substitutes_iff_ex_and_parent
                    path_assigned site_a_ex)).
    split; [reflexivity | discriminate].
  - discriminate.
  - apply (proj2 (visitor_substitutes_iff_ex_and_parent
                    path_plain (mkSite (to_node a_b) []))).
    discriminate.
Defined.

(** C9.  Visiting a node whose property name is "ex" through a path with no
    parent ends in a [TypeError]: the fault arises in [childExists], which
    reads the parent's type, passes through [existentialExpression], and is
    the result of the visitor entry itself, which requests nothing. *)
Theorem visitor_orphan_throws (path : Path) (s : Site) :
  name (property (node path)) = Some "ex" ->
  parent path = None ->
  childExists path = Throw TypeError /\
  existentialExpression path = Throw TypeError /\
  visitor.MemberExpression path s = Throw TypeError.
Proof.
  intros E Hp. split; [exact (childExists_absent _ Hp)|].
  pose proof (existentialExpression_orphan _ _ E Hp) as He.
  split; [exact He|]. now rewrite (visitor_matched _ _ E), He.
Qed.

Lemma visitor_orphan_throws_witness :
  name (property (node path_orphan)) = Some "ex" /\
  parent path_orphan = None /\
  childExists path_orphan = Throw TypeError /\
  existentialExpression path_orphan = Throw TypeError /\
  visitor.MemberExpression path_orphan site_a_ex = Throw TypeError.
Proof.
  split; [reflexivity|]. split; [reflexivity|].
  exact (visitor_orphan_throws path_orphan site_a_ex eq_refl eq_refl).
Defined.

(** ** A second pass over the output *)

Lemma ex_free_app (l r : list Node) :
  forallb (fun x => negb (matches x)) (l ++ r) =
  forallb (fun x => negb (matches x)) l &&
  forallb (fun x => negb (matches x)) r.
Proof. apply forallb_app. Qed.

(** In an [ex_free] tree, visiting any member access changes nothing. *)
Lemma ex_free_visit (n : Node) (m : MemberNode) (up : option Ancestor)
      (s : Site) :
  ex_free n = true ->
  In (to_node m) (subnodes n) ->
  visitor.MemberExpression {| node := m; parent := up |} s = Normal s.
Proof.
  intros Hfree Hin. unfold ex_free in Hfree.
  rewrite forallb_forall in Hfree. specialize (Hfree _ Hin).
  apply negb_true_iff in Hfree. simpl in Hfree.
  apply visitor_unmatched. simpl. now apply is_ex_false.
Qed.

Lemma replacement_ex_free (path : Path) (a : Ancestor) (r : Node) :
  name (property (node path)) = Some "ex" ->
  parent path = Some a ->
  ex_free (object (node path)) = true ->
  existentialExpression path = Normal r ->
  ex_free r = true.
Proof.
  intros E Hp Hfree Hr.
  rewrite (existentialExpression_built _ _ _ E Hp) in Hr.
  injection Hr as <-. unfold ex_free in *.
  destruct (type (this a) =? "ExpressionStatement");
    cbn [subnodes forallb matches negb andb app];
    repeat (rewrite ex_free_app; cbn [forallb matches negb andb]);
    rewrite ?Hfree; reflexivity.
Qed.

(** C5.  When the visitor rewrites a matched node whose base object holds
    no "ex" access, the node it puts at the position holds none either; so
    on that output a visit of any member access in it, by any path, returns
    the position unchanged and requests nothing. *)
Theorem replacement_second_pass_noop (path : Path) (a : Ancestor) (s : Site) :
  name (property (node path)) = Some "ex" ->
  parent path = Some a ->
  ex_free (object (node path)) = true ->
  exists s',
    visitor.MemberExpression path s = Normal s' /\
    ex_free (held s') = true /\
    forall m up s2,
      In (to_node m) (subnodes (held s')) ->
      visitor.MemberExpression {| node := m; parent := up |} s2 = Normal s2.
Proof.
  intros E Hp Hfree.
  pose proof (existentialExpression_built _ _ _ E Hp) as Hr.
  eexists. split.
  - rewrite (visitor_matched _ _ E), Hr. reflexivity.
  - assert (Hf : ex_free (held (replaceWith
               (ConditionalExpression
                  (LogicalExpression "&&"
                     (BinaryExpression "!=="
                        (UnaryExpression "typeof" (object (node path)) false)
                        (StringLiteral "undefined"))
                     (BinaryExpression "!==" (Identifier "ex") NullLiteral))
                  (if type (this a) =? "ExpressionStatement"
                   then BooleanLiteral true else object (node path))
                  (if type (this a) =? "ExpressionStatement"
                   then BooleanLiteral false
                   else UnaryExpression "void" (NumericLiteral 0) false))
               s)) = true).
    { simpl held. exact (replacement_ex_free _ _ _ E Hp Hfree Hr). }
    split; [exact Hf|].
    intros m up s2 Hin. exact (ex_free_visit _ _ _ _ Hf Hin).
Qed.

Lemma replacement_second_pass_noop_witness :
  name (property (node path_assigned)) = Some "ex" /\
  ex_free (object (node path_assigned)) = true /\
  exists s',
    visitor.MemberExpression path_assigned site_a_ex = Normal s' /\
    ex_free (held s') = true /\
    forall m up s2,
      In (to_node m) (subnodes (held s')) ->
      visitor.MemberExpression {| node := m; parent := up |} s2 = Normal s2.
Proof.
  split; [reflexivity|]. split; [reflexivity|].
  exact (replacement_second_pass_noop path_assigned _ site_a_ex
           eq_refl eq_refl eq_refl).
Defined.

(** ** Context predicates *)

(** What [isCallee] computes: [true] exactly under a call expression,
    wherever the node stands in it. *)
Lemma isCallee_true_iff (path : Path) :
  isCallee path = Normal true <->
  exists a, parent path = Some a /\ type (this a) = "CallExpression".
Proof.
  unfold isCallee, parent_type. destruct (parent path) as [a|]; simpl.
  - split.
    + intros H. injection H as H. apply String.eqb_eq in H. eauto.
    + intros (a' & Ha & Hty). injection Ha as <-.
      apply String.eqb_eq in Hty. now rewrite Hty.
  - split; [discriminate|]. intros (a' & Ha & _). discriminate.
Qed.

(** C6.  On [a.ex] in [f(a.ex)] the node is an argument of the call above
    it and not its callee, and [isCallee] answers [true] where the callee
    test asks for [false]: the code compares the parent's type and never
    looks at the place of the node in the call. *)
Theorem isCallee_true_at_argument :
  at_argument_position path_argument /\
  ~ at_callee_position path_argument /\
  isCallee path_argument = Normal true /\
  isCallee path_argument <> Normal false.
Proof.
  split; [| split; [| split]].
  - exists (mkAncestor (CallExpression (Identifier "f") [to_node a_ex]) None),
      (Identifier "f"), [to_node a_ex].
    split; [reflexivity|]. split; [reflexivity|]. left. reflexivity.
  - intros (a & args & Ha & Hthis). injection Ha as <-. discriminate Hthis.
  - apply isCallee_true_iff. eexists. split; reflexivity.
  - intros H. discriminate H.
Qed.

(** C7.  Where the parent reference is absent [parentExists] yields
    [undefined], not the boolean [false]: on a path with no parent, and on
    the parent of [a.ex;] as [scopeIsAccessed] hands it over.  Where the
    reference is present it yields [true]. *)
Theorem parentExists_absent_is_undefined :
  parentExists path_orphan = JUndefined /\
  parentExists (mkAncestor (ExpressionStatement (to_node a_ex)) None) =
    JUndefined /\
  parentExists path_orphan <> JBoolean false /\
  parentExists path_statement = JBoolean true.
Proof.
  repeat split. intros H. discriminate H.
Qed.

(** ** Determinism *)

(** C10.  The replacement is a function of the path's node and of the node
    right above it: two paths that agree on both get equal results from
    [existentialExpression], whatever lies further up.  The replacement a
    visit requests is the same at every state of the tree position, so
    nothing left by one visit reaches another. *)
Theorem existentialExpression_deterministic :
  (forall p q,
      node p = node q ->
      parent_node p = parent_node q ->
      existentialExpression p = existentialExpression q) /\
  (forall path s s' r,
      visitor.MemberExpression path s = Normal (replaceWith r s) ->
      visitor.MemberExpression path s' = Normal (replaceWith r s')).
Proof.
  split.
  - intros [n [a|]] [n' [a'|]]; unfold parent_node; simpl;
      intros Hn Hp; try discriminate; subst n'.
    + injection Hp as Hp.
      unfold existentialExpression, testMemberExp,
        isNotTypeUndefinedAndNotNullExp, isNotTypeUndefinedExp,
        isNotTypeofExp, isNotNullExp, consequentMemberExp,
        alternativeMemberExp, childExists, parent_type.
      simpl. now rewrite Hp.
    + reflexivity.
  - intros path s s' r H. apply visitor_requests in H.
    now apply visitor_requests.
Qed.

Lemma existentialExpression_deterministic_witness :
  node path_called = node path_called_statement /\
  parent_node path_called = parent_node path_called_statement /\
  path_called <> path_called_statement /\
  existentialExpression path_called =
    existentialExpression path_called_statement /\
  visitor.MemberExpression path_called
    (replaceWith (Identifier "x") site_a_ex) =
    Normal (replaceWith
              (ConditionalExpression
                 (LogicalExpression "&&"
                    (BinaryExpression "!=="
                       (UnaryExpression "typeof" (Identifier "a") false)
                       (StringLiteral "undefined"))
                    (BinaryExpression "!==" (Identifier "ex") NullLiteral))
                 (Identifier "a")
                 (UnaryExpression "void" (NumericLiteral 0) false))
              (replaceWith (Identifier "x") site_a_ex)).
Proof.
  split; [reflexivity|]. split; [reflexivity|]. split; [discriminate|].
  split.
  - exact (proj1 existentialExpression_deterministic
                 path_called path_called_statement eq_refl eq_refl).
  - exact (proj2 existentialExpression_deterministic
                 path_called site_a_ex _ _ eq_refl).
Defined.

(** * Further properties of the code *)

(** ** Trees and their nodes *)

Lemma subnodes_size (n x : Node) : In x (subnodes n) -> size x <= size n.
Proof.
  revert n x. fix IH 1. intros n x Hin.
  destruct n; cbn [subnodes] in Hin; destruct Hin as [<- | Hin];
    try apply le_n; cbn [size]; try contradiction;
    repeat (apply in_app_or in Hin; destruct Hin as [Hin | Hin]);
    try (apply IH in Hin; lia).
  induction arguments as [| y ys IHys]; cbn [flat_map] in Hin.
  - contradiction.
  - apply in_app_or in Hin. destruct Hin as [Hin | Hin].
    + apply IH in Hin. unfold list_sum. cbn [map fold_right]. lia.
    + specialize (IHys Hin). unfold list_sum in *. cbn [map fold_right]. lia.
Qed.

(** A member access is not a node of its own base object. *)
Lemma member_not_in_object (m : MemberNode) :
  ~ In (to_node m) (subnodes (object m)).
Proof.
  intros Hin. apply subnodes_size in Hin. unfold to_node in Hin.
  cbn [size] in Hin. lia.
Qed.

(** ** What a visit leaves at the tree position *)

(** The site a visit of a matched node with a parent returns. *)
Lemma visitor_matched_site (path : Path) (a : Ancestor) (s : Site) :
  name (property (node path)) = Some "ex" ->
  parent path = Some a ->
  let guard :=
    LogicalExpression "&&"
      (BinaryExpression "!=="
         (UnaryExpression "typeof" (object (node path)) false)
         (StringLiteral "undefined"))
      (BinaryExpression "!==" (Identifier "ex") NullLiteral) in
  let replacement :=
    if type (this a) =? "ExpressionStatement"
    then ConditionalExpression guard (BooleanLiteral true)
                               (BooleanLiteral false)
    else ConditionalExpression guard (object (node path))
           (UnaryExpression "void" (NumericLiteral 0) false) in
  visitor.MemberExpression path s =
    Normal {| held := replacement;
              requested := requested s ++ [replacement] |}.
Proof.
  intros E Hp guard replacement. rewrite (visitor_matched _ _ E).
  rewrite (existentialExpression_built _ _ _ E Hp). subst replacement guard.
  cbn [bind]. unfold replaceWith.
  now destruct (type (this a) =? "ExpressionStatement").
Qed.

(** X1.  Visiting a node whose property name is "ex" through a path with a
    parent returns normally; the position then holds [typeof object !==
    "undefined" && ex !== null ? object : void 0], or [... ? true : false]
    under an expression statement, and that node is the one request added
    to the position's record. *)
Theorem visitor_rewrite_result (path : Path) (a : Ancestor) (s : Site) :
  name (property (node path)) = Some "ex" ->
  parent path = Some a ->
  let guard :=
    LogicalExpression "&&"
      (BinaryExpression "!=="
         (UnaryExpression "typeof" (object (node path)) false)
         (StringLiteral "undefined"))
      (BinaryExpression "!==" (Identifier "ex") NullLiteral) in
  let replacement :=
    if type (this a) =? "ExpressionStatement"
    then ConditionalExpression guard (BooleanLiteral true)
                               (BooleanLiteral false)
    else ConditionalExpression guard (object (node path))
           (UnaryExpression "void" (NumericLiteral 0) false) in
  visitor.MemberExpression path s =
    Normal {| held := replacement;
              requested := requested s ++ [replacement] |}.
Proof. exact (visitor_matched_site path a s). Qed.

Lemma visitor_rewrite_result_witness :
  name (property (node path_statement)) = Some "ex" /\
  visitor.MemberExpression path_statement site_a_ex =
    Normal
      {| held :=
           ConditionalExpression
             (LogicalExpression "&&"
                (BinaryExpression "!=="
                   (UnaryExpression "typeof" (Identifier "a") false)
                   (StringLiteral "undefined"))
                (BinaryExpression "!==" (Identifier "ex") NullLiteral))
             (BooleanLiteral true) (BooleanLiteral false);
         requested :=
           [ConditionalExpression
              (LogicalExpression "&&"
                 (BinaryExpression "!=="
                    (UnaryExpression "typeof" (Identifier "a") false)
                    (StringLiteral "undefined"))
                 (BinaryExpression "!==" (Identifier "ex") NullLiteral))
              (BooleanLiteral true) (BooleanLiteral false)] |}.
Proof.
  split; [reflexivity|].
  exact (visitor_rewrite_result path_statement _ site_a_ex eq_refl eq_refl).
Defined.

(** X2.  Whatever a normal visit leaves, it either left the position as it
    was, or added exactly one request, for the node now held there, and
    that node is a conditional expression.  A visit never requests two
    substitutions and never puts another kind of node in place. *)
Theorem visitor_at_most_one_request (path : Path) (s s' : Site) :
  visitor.MemberExpression path s = Normal s' ->
  s' = s \/
  (requested s' = (requested s ++ [held s'])%list /\
   type (held s') = "ConditionalExpression").
Proof.
  intros H. destruct (is_ex (name (property (node path)))) eqn:E.
  - right. apply is_ex_true in E. rewrite (visitor_matched _ _ E) in H.
    apply bind_Normal in H. destruct H as (r & Hr & Heq).
    injection Heq as <-. split; [reflexivity|].
    unfold existentialExpression in Hr.
    apply bind_Normal in Hr. destruct Hr as (x & _ & Hr).
    apply bind_Normal in Hr. destruct Hr as (y & _ & Hr).
    apply bind_Normal in Hr. destruct Hr as (z & _ & Hr).
    injection Hr as <-. reflexivity.
  - left. apply is_ex_false in E. rewrite (visitor_unmatched _ _ E) in H.
    congruence.
Qed.

Lemma visitor_at_most_one_request_witness :
  replaceWith
    (ConditionalExpression
       (LogicalExpression "&&"
          (BinaryExpression "!=="
             (UnaryExpression "typeof" (Identifier "a") false)
             (StringLiteral "undefined"))
          (BinaryExpression "!==" (Identifier "ex") NullLiteral))
       (Identifier "a")
       (UnaryExpression "void" (NumericLiteral 0) false))
    site_a_ex = site_a_ex \/
  (requested
     (replaceWith
        (ConditionalExpression
           (LogicalExpression "&&"
              (BinaryExpression "!=="
                 (UnaryExpression "typeof" (Identifier "a") false)
                 (StringLiteral "undefined"))
              (BinaryExpression "!==" (Identifier "ex") NullLiteral))
           (Identifier "a")
           (UnaryExpression "void" (NumericLiteral 0) false))
        site_a_ex) =
   (requested site_a_ex ++
     [ConditionalExpression
        (LogicalExpression "&&"
           (BinaryExpression "!=="
              (UnaryExpression "typeof" (Identifier "a") false)
              (StringLiteral "undefined"))
           (BinaryExpression "!==" (Identifier "ex") NullLiteral))
        (Identifier "a")
        (UnaryExpression "void" (NumericLiteral 0) false)])%list /\
   "ConditionalExpression" = "ConditionalExpression").
Proof.
  exact (visitor_at_most_one_request path_assigned site_a_ex _ eq_refl).
Defined.

(** X3.  The node a visit puts in place does not contain the node it
    replaces: the matched member access is dropped whole, only its base
    object is carried over. *)
Theorem replacement_drops_matched_node (path : Path) (a : Ancestor)
        (s : Site) :
  name (property (node path)) = Some "ex" ->
  parent path = Some a ->
  exists s',
    visitor.MemberExpression path s = Normal s' /\
    ~ In (to_node (node path)) (subnodes (held s')) /\
    In (object (node path)) (subnodes (held s')).
Proof.
  intros E Hp. eexists. split.
  - exact (visitor_matched_site _ _ s E Hp).
  - pose proof (member_not_in_object (node path)) as Hno.
    assert (Hself : In (object (node path)) (subnodes (object (node path)))).
    { destruct (object (node path)); left; reflexivity. }
    cbn [held]. destruct (type (this a) =? "ExpressionStatement");
      cbn [subnodes app]; split.
    + cbn [In]. rewrite !in_app_iff. cbn [In]. unfold to_node.
      intros H. repeat (destruct H as [H | H]; try discriminate H);
        try contradiction.
    + cbn [In]. rewrite !in_app_iff. tauto.
    + cbn [In]. rewrite !in_app_iff. cbn [In]. unfold to_node.
      intros H. repeat (destruct H as [H | H]; try discriminate H);
        try contradiction.
    + cbn [In]. rewrite !in_app_iff. tauto.
Qed.

Lemma replacement_drops_matched_node_witness :
  name (property (node path_nested)) = Some "ex" /\
  exists s',
    visitor.MemberExpression path_nested
      (mkSite (to_node a_ex_ex) []) = Normal s' /\
    ~ In (to_node (node path_nested)) (subnodes (held s')) /\
    In (object (node path_nested)) (subnodes (held s')).
Proof.
  split; [reflexivity|].
  exact (replacement_drops_matched_node path_nested _
           (mkSite (to_node a_ex_ex) []) eq_refl eq_refl).
Defined.

Lemma ex_count_app (l r : list Node) :
  length (filter matches (l ++ r)) =
  length (filter matches l) + length (filter matches r).
Proof. now rewrite filter_app, length_app. Qed.

(** X4.  The rewrite adds no "ex" access of its own and repeats those of
    the base object: the node put in place holds each of them once under an
    expression statement (in the [typeof] test) and twice anywhere else (in
    the test and as the consequent). *)
Theorem replacement_ex_count (path : Path) (a : Ancestor) (s : Site) :
  name (property (node path)) = Some "ex" ->
  parent path = Some a ->
  exists s',
    visitor.MemberExpression path s = Normal s' /\
    ex_count (held s') =
      (if type (this a) =? "ExpressionStatement" then 1 else 2) *
      ex_count (object (node path)).
Proof.
  intros E Hp. eexists. split.
  - exact (visitor_matched_site _ _ s E Hp).
  - cbn [held]. unfold ex_count.
    destruct (type (this a) =? "ExpressionStatement");
      cbn [subnodes app filter matches];
      repeat (rewrite ex_count_app; cbn [filter matches length]);
      cbn [filter matches length]; lia.
Qed.

Lemma replacement_ex_count_witness :
  name (property (node path_nested)) = Some "ex" /\
  ex_count (object (node path_nested)) = 1 /\
  exists s',
    visitor.MemberExpression path_nested
      (mkSite (to_node a_ex_ex) []) = Normal s' /\
    ex_count (held s') = 2 * 1.
Proof.
  split; [reflexivity|]. split; [reflexivity|].
  exact (replacement_ex_count path_nested _ (mkSite (to_node a_ex_ex) [])
           eq_refl eq_refl).
Defined.

(** ** Which member accesses a visit touches *)

(** X5.  The visitor entry does not look at the [computed] flag: [a[ex]] is
    handled exactly as [a.ex].  A member access whose property is not an
    identifier, such as [a["ex"]], is left as it is, without fault and
    whether or not the path has a parent. *)
Theorem visitor_ignores_computed :
  (forall o q c c' up s,
      visitor.MemberExpression
        {| node := mkMember o q c; parent := up |} s =
      visitor.MemberExpression
        {| node := mkMember o q c'; parent := up |} s) /\
  (forall path s,
      name (property (node path)) = None ->
      visitor.MemberExpression path s = Normal s).
Proof.
  split.
  - reflexivity.
  - intros path s H. apply visitor_unmatched. rewrite H. discriminate.
Qed.

Lemma visitor_ignores_computed_witness :
  name (property (node path_string_key)) = None /\
  visitor.MemberExpression path_string_key (mkSite (to_node a_str_ex) []) =
    Normal (mkSite (to_node a_str_ex) []).
Proof.
  split; [reflexivity|].
  exact (proj2 visitor_ignores_computed path_string_key _ eq_refl).
Defined.

(** ** Context predicates *)

(** X6.  [scopeIsAccessed] answers [true] exactly when the path has a
    parent, that parent has a parent, and the latter is a member
    expression.  It is [false], not a fault, when either reference is
    missing: the [undefined] of [parentExists] stops the [&&] chain before
    the grandparent's type is read. *)
Theorem scopeIsAccessed_iff (path : Path) :
  scopeIsAccessed path = true <->
  exists a g,
    parent path = Some a /\
    parentOf a = Some g /\
    type (this g) = "MemberExpression".
Proof.
  unfold scopeIsAccessed, parentExists.
  change (parentOf path) with (parent path).
  destruct (parent path) as [a|]; cbn [Boolean].
  - destruct (parentOf a) as [g|] eqn:Hg; cbn [Boolean].
    + split.
      * intros H. apply String.eqb_eq in H. eauto.
      * intros (a' & g' & Ha & Hg' & Hty). injection Ha as <-.
        rewrite Hg in Hg'. injection Hg' as <-.
        now apply String.eqb_eq.
    + split; [discriminate|].
      intros (a' & g' & Ha & Hg' & _). injection Ha as <-. congruence.
  - split; [discriminate|]. intros (a' & g' & Ha & _). discriminate.
Qed.

Lemma scopeIsAccessed_iff_witness :
  scopeIsAccessed path_deep = true /\
  scopeIsAccessed path_called_statement = false /\
  scopeIsAccessed path_orphan = false.
Proof.
  split; [| split; reflexivity].
  apply (proj2 (scopeIsAccessed_iff path_deep)).
  eexists. eexists. split; [reflexivity|]. split; reflexivity.
Defined.

(** X7.  [childExists], [isCallee] and the factories that consult them end
    in a [TypeError] exactly on a path with no parent; with a parent each of
    them returns normally. *)
Theorem parent_readers_throw_iff_orphan (path : Path) :
  (childExists path = Throw TypeError <-> parent path = None) /\
  (isCallee path = Throw TypeError <-> parent path = None) /\
  (consequentMemberExp path = Throw TypeError <-> parent path = None) /\
  (alternativeMemberExp path = Throw TypeError <-> parent path = None) /\
  (alternativeCallExp path = Throw TypeError <-> parent path = None) /\
  (alternativeExpression path = Throw TypeError <-> parent path = None).
Proof.
  unfold alternativeExpression, alternativeCallExp, alternativeMemberExp,
    consequentMemberExp, childExists, isCallee, parent_type.
  destruct (parent path) as [a|]; cbn [bind].
  - destruct (type (this a) =? "CallExpression");
      repeat split; discriminate.
  - repeat split.
Qed.

Lemma parent_readers_throw_iff_orphan_witness :
  childExists path_orphan = Throw TypeError /\
  isCallee path_orphan = Throw TypeError.
Proof.
  split.
  - exact (proj2 (proj1 (parent_readers_throw_iff_orphan path_orphan))
                 eq_refl).
  - exact (proj2 (proj1 (proj2 (parent_readers_throw_iff_orphan
                                  path_orphan))) eq_refl).
Defined.

(** X8.  Under a call expression the result always counts as consumed: when
    [isCallee] answers [true], [childExists] answers [true] as well, so the
    consequent is the base object and the alternatives are [void 0]; the
    [false] literal of [alternativeCallExp] cannot come out through
    [alternativeExpression]. *)
Theorem call_parent_is_consumed (path : Path) :
  isCallee path = Normal true ->
  childExists path = Normal true /\
  consequentMemberExp path = Normal (object (node path)) /\
  alternativeMemberExp path =
    Normal (UnaryExpression "void" (NumericLiteral 0) false) /\
  alternativeCallExp path =
    Normal (UnaryExpression "void" (NumericLiteral 0) false) /\
  alternativeExpression path =
    Normal (UnaryExpression "void" (NumericLiteral 0) false).
Proof.
  unfold alternativeExpression, alternativeCallExp, alternativeMemberExp,
    consequentMemberExp, childExists, isCallee, parent_type.
  destruct (parent path) as [a|]; cbn [bind]; [| discriminate].
  intros H. injection H as H. rewrite H. apply String.eqb_eq in H.
  rewrite H. repeat split.
Qed.

Lemma call_parent_is_consumed_witness :
  isCallee path_called = Normal true /\
  childExists path_called = Normal true /\
  consequentMemberExp path_called = Normal (Identifier "a") /\
  alternativeMemberExp path_called =
    Normal (UnaryExpression "void" (NumericLiteral 0) false) /\
  alternativeCallExp path_called =
    Normal (UnaryExpression "void" (NumericLiteral 0) false) /\
  alternativeExpression path_called =
    Normal (UnaryExpression "void" (NumericLiteral 0) false).
Proof.
  split; [reflexivity|].
  exact (call_parent_is_consumed path_called eq_refl).
Defined.

(** ** The dispatching factories *)

(** X9.  [alternativeExpression] agrees with [alternativeMemberExp] on every
    path, faults included: the call and member alternatives are the same
    function of the parent, so the dispatch on [isCallee] changes nothing. *)
Theorem alternativeExpression_is_member (path : Path) :
  alternativeExpression path = alternativeMemberExp path.
Proof.
  unfold alternativeExpression, alternativeCallExp, alternativeMemberExp,
    childExists, isCallee, parent_type.
  destruct (parent path) as [a|]; cbn [bind]; [| reflexivity].
  now destruct (type (this a) =? "CallExpression").
Qed.

(** X10.  On a path with a parent and a named property, [testExpression]
    returns the member guard extended with [&& typeof object !==
    "function"] when the parent is a call expression, whether the node is
    its callee or one of its arguments, and the member guard alone under any
    other parent. *)
Theorem testExpression_dispatch (path : Path) (a : Ancestor) (nm : string) :
  name (property (node path)) = Some nm ->
  parent path = Some a ->
  exists guard,
    testMemberExp path = Normal guard /\
    testExpression path =
      Normal (if type (this a) =? "CallExpression"
              then LogicalExpression "&&" guard
                     (BinaryExpression "!=="
                        (UnaryExpression "typeof" (object (node path)) false)
                        (StringLiteral "function"))
              else guard).
Proof.
  intros E Hp. eexists. split; [exact (testMemberExp_named _ _ E)|].
  unfold testExpression, isCallee. rewrite (parent_type_present _ _ Hp).
  cbn [bind]. destruct (type (this a) =? "CallExpression").
  - exact (testCallExp_named _ _ E).
  - exact (testMemberExp_named _ _ E).
Qed.

Lemma testExpression_dispatch_witness :
  name (property (node path_argument)) = Some "ex" /\
  at_argument_position path_argument /\
  exists guard,
    testMemberExp path_argument = Normal guard /\
    testExpression path_argument =
      Normal (LogicalExpression "&&" guard
                (BinaryExpression "!=="
                   (UnaryExpression "typeof" (Identifier "a") false)
                   (StringLiteral "function"))).
Proof.
  split; [reflexivity|]. split.
  - exists (mkAncestor (CallExpression (Identifier "f") [to_node a_ex]) None),
      (Identifier "f"), [to_node a_ex].
    split; [reflexivity|]. split; [reflexivity|]. left. reflexivity.
  - exact (testExpression_dispatch path_argument _ "ex" eq_refl eq_refl).
Defined.
